(** * CSS selector builder of [src/06-objects-tasks.js]

    A shallow embedding of [MySuperBaseElementSelector], its prototype
    methods and the [cssSelectorBuilder] facade, together with the
    properties of the builder that the specification states.

    JavaScript objects are mutable and are handled through references, and
    an exception leaves every mutation made before the [throw] in place.
    Both facts matter here, so the embedding is a state-and-exception monad
    whose state survives a [throw], used at two levels:
    - the fields of the receiver [this], for the methods that touch nothing
      but [this];
    - the store of all selector objects, for [combine] and for the facade,
      which handle several objects that may be the same one. *)

From Stdlib Require Import ZArith String Ascii Sorted Lia.
From stdpp Require Import base list strings.

Open Scope Z_scope.

(** ** Exceptions *)

(** [new Error(message)]; [TypeError] is what the runtime raises when a
    method is called on something that is not a selector object. *)
Inductive exn : Type :=
| Error (message : string)
| TypeError.

(** The two messages thrown by the source. *)
Definition DuplicateFragmentError : exn :=
  Error "Element, id and pseudo-element should not occur more then one time inside the selector".

Definition OutOfOrderError : exn :=
  Error "Selector parts should be arranged in the following order: element, id, class, attribute, pseudo-class, pseudo-element".

(** ** Computations over a mutable state [S] that may throw *)

Definition Js (S A : Type) : Type := S -> S * (exn + A).

Definition ret {S A} (a : A) : Js S A := fun s => (s, inr a).

Definition throw {S A} (e : exn) : Js S A := fun s => (s, inl e).

Definition bind {S A B} (c : Js S A) (k : A -> Js S B) : Js S B :=
  fun s =>
    match c s with
    | (s', inl e) => (s', inl e)
    | (s', inr a) => k a s'
    end.

Definition get {S} : Js S S := fun s => (s, inr s).

Definition modify {S} (f : S -> S) : Js S unit := fun s => (f s, inr tt).

Declare Scope js_scope.
Delimit Scope js_scope with js.
Notation "'let*' x ':=' c 'in' k" := (bind c (fun x => k))
  (at level 10, x name, c at level 100, k at level 200) : js_scope.
Notation "c ;; k" := (bind c (fun _ => k))
  (at level 100, k at level 200, right associativity) : js_scope.
Open Scope js_scope.

(** State and outcome of a computation. *)
Definition state_after {S A} (c : Js S A) (s : S) : S := fst (c s).
Definition outcome {S A} (c : Js S A) (s : S) : exn + A := snd (c s).

(** [forEach]-style sequencing of one method over a list of arguments. *)
Fixpoint for_each {S A} (f : A -> Js S unit) (l : list A) : Js S unit :=
  match l with
  | [] => ret tt
  | x :: l' => f x ;; for_each f l'
  end.

(** ** The fragments of the runtime that the source relies on *)

Module JS.

(** [a.join(sep)] on an array of strings. *)
Fixpoint join (sep : string) (a : list string) : string :=
  match a with
  | [] => ""
  | [x] => x
  | x :: rest => x +:+ sep +:+ join sep rest
  end.

(** [a.slice(start)]: a negative [start] counts from the end, and both
    ends are clamped to the array. *)
Definition slice {A} (start : Z) (a : list A) : list A :=
  let len := Z.of_nat (length a) in
  let k := if start <? 0 then Z.max (len + start) 0 else Z.min start len in
  drop (Z.to_nat k) a.

(** Every object, an empty array included, is truthy. *)
Definition truthy_array {A} (a : list A) : bool := true.

(** [ToNumber] of an array of numbers goes through its string form:
    [[]] is [""], hence [0]; [[x]] is the text of [x], hence [x]; a longer
    array has commas in its text and is [NaN], here [None]. *)
Definition to_number (a : list Z) : option Z :=
  match a with
  | [] => Some 0
  | [x] => Some x
  | _ => None
  end.

(** [a > n] for an array [a] and a number [n]; [NaN] compares false. *)
Definition gt (a : list Z) (n : Z) : bool :=
  match to_number a with
  | Some x => n <? x
  | None => false
  end.

End JS.

(** ** The selector object *)

(** The fields of a [MySuperBaseElementSelector].  The three flags are
    absent ([undefined]) until a method assigns [true]; they are only ever
    tested for truthiness, so an absent flag is [false]. *)
Record MySuperBaseElementSelector : Type := mkSelector {
  arr : list string;
  order : list Z;
  hasElement : bool;
  hasId : bool;
  hasPseudoElement : bool
}.

(** [function MySuperBaseElementSelector() { this.arr = []; this.order = []; }] *)
Definition constructor : MySuperBaseElementSelector :=
  {| arr := []; order := []; hasElement := false; hasId := false;
     hasPseudoElement := false |}.

(** Field assignments [this.f = x], first as functions on the fields and
    then as statements. *)
Definition with_arr (a : list string) (this : MySuperBaseElementSelector) :=
  {| arr := a; order := order this; hasElement := hasElement this;
     hasId := hasId this; hasPseudoElement := hasPseudoElement this |}.

Definition with_order (l : list Z) (this : MySuperBaseElementSelector) :=
  {| arr := arr this; order := l; hasElement := hasElement this;
     hasId := hasId this; hasPseudoElement := hasPseudoElement this |}.

Definition with_hasElement (b : bool) (this : MySuperBaseElementSelector) :=
  {| arr := arr this; order := order this; hasElement := b;
     hasId := hasId this; hasPseudoElement := hasPseudoElement this |}.

Definition with_hasId (b : bool) (this : MySuperBaseElementSelector) :=
  {| arr := arr this; order := order this; hasElement := hasElement this;
     hasId := b; hasPseudoElement := hasPseudoElement this |}.

Definition with_hasPseudoElement (b : bool) (this : MySuperBaseElementSelector) :=
  {| arr := arr this; order := order this; hasElement := hasElement this;
     hasId := hasId this; hasPseudoElement := b |}.

Definition set_arr (a : list string) : Js MySuperBaseElementSelector unit :=
  modify (with_arr a).

Definition set_hasElement (b : bool) : Js MySuperBaseElementSelector unit :=
  modify (with_hasElement b).

Definition set_hasId (b : bool) : Js MySuperBaseElementSelector unit :=
  modify (with_hasId b).

Definition set_hasPseudoElement (b : bool) : Js MySuperBaseElementSelector unit :=
  modify (with_hasPseudoElement b).

(** [this.arr.push(x)] and [this.order.push(n)]. *)
Definition arr_push (x : string) : Js MySuperBaseElementSelector unit :=
  modify (fun this => with_arr (arr this ++ [x]) this).

Definition order_push (n : Z) : Js MySuperBaseElementSelector unit :=
  modify (fun this => with_order (order this ++ [n]) this).

(** ** The store of selector objects

    A reference is the position of the object in the store; [new] puts a
    freshly constructed object at the end, so it never hands out a reference
    that is already in use. *)

Definition ref : Type := nat.

Abbreviation heap := (list MySuperBaseElementSelector).

(** [new MySuperBaseElementSelector()] *)
Definition new : Js heap ref :=
  fun h => (h ++ [constructor], inr (length h)).

(** Run a method body with the object behind [r] as its [this]; whatever
    the body did to [this] before returning or throwing is written back. *)
Definition on {A} (r : ref) (body : Js MySuperBaseElementSelector A) : Js heap A :=
  fun h =>
    match h !! r with
    | Some this => let (this', res) := body this in (<[r := this']> h, res)
    | None => (h, inl TypeError)
    end.

(** [r.method(...)] for a method that ends in [return this]. *)
Definition send (r : ref) (body : Js MySuperBaseElementSelector unit) : Js heap ref :=
  on r body ;; ret r.

(** ** [MySuperBaseElementSelector.prototype]: the methods on [this]

    Each append method ends in [return this]; the receiver is the state of
    the computation, so the methods return [tt] here and the caller keeps
    the reference (see [send] above).  [combine] reads two other objects,
    which may be [this] itself, so it runs on the store. *)

Module prototype.

Definition checkOrder (number : Z) : Js MySuperBaseElementSelector unit :=
  let* this := get in
  if JS.truthy_array (JS.slice (-1) (order this))
     && JS.gt (JS.slice (-1) (order this)) number
  then throw OutOfOrderError
  else ret tt.

Definition element (value : string) : Js MySuperBaseElementSelector unit :=
  let* this := get in
  if hasElement this then throw DuplicateFragmentError else
  set_hasElement true ;;
  arr_push value ;;
  checkOrder 1 ;;
  order_push 1.

Definition id (value : string) : Js MySuperBaseElementSelector unit :=
  let* this := get in
  if hasId this then throw DuplicateFragmentError else
  set_hasId true ;;
  arr_push ("#" +:+ value) ;;
  checkOrder 2 ;;
  order_push 2.

Definition class (value : string) : Js MySuperBaseElementSelector unit :=
  arr_push ("." +:+ value) ;;
  checkOrder 3 ;;
  order_push 3.

Definition attr (value : string) : Js MySuperBaseElementSelector unit :=
  arr_push ("[" +:+ value +:+ "]") ;;
  checkOrder 4 ;;
  order_push 4.

Definition pseudoClass (value : string) : Js MySuperBaseElementSelector unit :=
  arr_push (":" +:+ value) ;;
  checkOrder 5 ;;
  order_push 5.

Definition pseudoElement (value : string) : Js MySuperBaseElementSelector unit :=
  let* this := get in
  if hasPseudoElement this then throw DuplicateFragmentError else
  set_hasPseudoElement true ;;
  arr_push ("::" +:+ value) ;;
  checkOrder 6 ;;
  order_push 6.

Definition stringify : Js MySuperBaseElementSelector string :=
  let* this := get in
  let result := JS.join "" (arr this) in
  ret result.

Definition combine (this selector1 : ref) (combinator : string) (selector2 : ref)
  : Js heap ref :=
  let* text1 := on selector1 stringify in
  let* text2 := on selector2 stringify in
  on this (set_arr [text1; " " +:+ combinator +:+ " "; text2]) ;;
  ret this.

End prototype.

(** ** The facade *)

Module cssSelectorBuilder.

Definition element (value : string) : Js heap ref :=
  let* instance := new in
  send instance (prototype.element value) ;;
  on instance (set_hasElement true) ;;
  ret instance.

Definition id (value : string) : Js heap ref :=
  let* instance := new in
  send instance (prototype.id value) ;;
  on instance (set_hasId true) ;;
  ret instance.

Definition class (value : string) : Js heap ref :=
  let* instance := new in
  send instance (prototype.class value) ;;
  ret instance.

Definition attr (value : string) : Js heap ref :=
  let* instance := new in
  send instance (prototype.attr value) ;;
  ret instance.

Definition pseudoClass (value : string) : Js heap ref :=
  let* instance := new in
  send instance (prototype.pseudoClass value) ;;
  ret instance.

Definition pseudoElement (value : string) : Js heap ref :=
  let* instance := new in
  send instance (prototype.pseudoElement value) ;;
  on instance (set_hasPseudoElement true) ;;
  ret instance.

Definition combine (selector1 : ref) (combinator : string) (selector2 : ref)
  : Js heap ref :=
  let* instance := new in
  prototype.combine instance selector1 combinator selector2 ;;
  ret instance.

End cssSelectorBuilder.

(** The example of the source's documentation. *)
Definition documentation_example : Js heap string :=
  let* div := cssSelectorBuilder.element "div" in
  send div (prototype.id "main") ;;
  send div (prototype.class "container") ;;
  send div (prototype.class "draggable") ;;
  let* table := cssSelectorBuilder.element "table" in
  send table (prototype.id "data") ;;
  let* tr := cssSelectorBuilder.element "tr" in
  send tr (prototype.pseudoClass "nth-of-type(even)") ;;
  let* td := cssSelectorBuilder.element "td" in
  send td (prototype.pseudoClass "nth-of-type(even)") ;;
  let* inner := cssSelectorBuilder.combine tr " " td in
  let* middle := cssSelectorBuilder.combine table "~" inner in
  let* outer := cssSelectorBuilder.combine div "+" middle in
  on outer prototype.stringify.

(** ** Vocabulary of the specification *)

(** The six append operations, their ranks, the text each one appends for
    a value, and the once-only flag each one tests and sets (none for the
    three repeatable kinds). *)
Inductive kind : Type :=
| Element | Id | Class | Attribute | PseudoClass | PseudoElement.

Definition rank (k : kind) : Z :=
  match k with
  | Element => 1 | Id => 2 | Class => 3
  | Attribute => 4 | PseudoClass => 5 | PseudoElement => 6
  end.

Definition decorate (k : kind) (value : string) : string :=
  match k with
  | Element => value
  | Id => "#" +:+ value
  | Class => "." +:+ value
  | Attribute => "[" +:+ value +:+ "]"
  | PseudoClass => ":" +:+ value
  | PseudoElement => "::" +:+ value
  end.

Definition seen (k : kind) (this : MySuperBaseElementSelector) : bool :=
  match k with
  | Element => hasElement this
  | Id => hasId this
  | PseudoElement => hasPseudoElement this
  | Class | Attribute | PseudoClass => false
  end.

Definition mark (k : kind) (this : MySuperBaseElementSelector) : MySuperBaseElementSelector :=
  match k with
  | Element => with_hasElement true this
  | Id => with_hasId true this
  | PseudoElement => with_hasPseudoElement true this
  | Class | Attribute | PseudoClass => this
  end.

(** The append method of each kind. *)
Definition append (k : kind) (value : string) : Js MySuperBaseElementSelector unit :=
  match k with
  | Element => prototype.element value
  | Id => prototype.id value
  | Class => prototype.class value
  | Attribute => prototype.attr value
  | PseudoClass => prototype.pseudoClass value
  | PseudoElement => prototype.pseudoElement value
  end.

(** Texts put one after the other. *)
Definition cat (l : list string) : string := foldr String.append "" l.

(** The rank sequence never steps down. *)
Definition non_decreasing (l : list Z) : Prop := Sorted Z.le l.

(** The kinds that may occur once only. *)
Definition once_only (k : kind) : bool :=
  match k with
  | Element | Id | PseudoElement => true
  | Class | Attribute | PseudoClass => false
  end.

#[global] Instance kind_eq_dec : EqDecision kind.
Proof. solve_decision. Defined.

(** ** Clients *)

(** What can happen to one instance: an append method is called on it, or
    it is the receiver of a [combine] whose arguments have the texts [text1]
    and [text2] (see [combine_run] for the link with [prototype.combine]). *)
Inductive event : Type :=
| Appends (k : kind) (value : string)
| Combines (text1 combinator text2 : string).

Definition receive (ev : event) : Js MySuperBaseElementSelector unit :=
  match ev with
  | Appends k value => append k value
  | Combines text1 combinator text2 =>
      set_arr [text1; " " +:+ combinator +:+ " "; text2]
  end.

(** The instance after a list of events, the caller going on after a call
    that throws. *)
Fixpoint attempt (events : list event) (this : MySuperBaseElementSelector)
  : MySuperBaseElementSelector :=
  match events with
  | [] => this
  | ev :: rest => attempt rest (state_after (receive ev) this)
  end.

(** A call of the facade. *)
Inductive facade_call : Type :=
| FAppend (k : kind) (value : string)
| FCombine (selector1 : ref) (combinator : string) (selector2 : ref).

Definition facade (k : kind) (value : string) : Js heap ref :=
  match k with
  | Element => cssSelectorBuilder.element value
  | Id => cssSelectorBuilder.id value
  | Class => cssSelectorBuilder.class value
  | Attribute => cssSelectorBuilder.attr value
  | PseudoClass => cssSelectorBuilder.pseudoClass value
  | PseudoElement => cssSelectorBuilder.pseudoElement value
  end.

Definition run_facade (f : facade_call) : Js heap ref :=
  match f with
  | FAppend k value => facade k value
  | FCombine selector1 combinator selector2 =>
      cssSelectorBuilder.combine selector1 combinator selector2
  end.

(** The same operation as a method call on the object behind [instance]. *)
Definition run_method (instance : ref) (f : facade_call) : Js heap ref :=
  match f with
  | FAppend k value => send instance (append k value)
  | FCombine selector1 combinator selector2 =>
      prototype.combine instance selector1 combinator selector2
  end.

(** The selectors handed to [combine] are objects of the store. *)
Definition arguments_allocated (f : facade_call) (h : heap) : Prop :=
  match f with
  | FAppend _ _ => True
  | FCombine selector1 _ selector2 =>
      is_Some (h !! selector1) /\ is_Some (h !! selector2)
  end.

(** What a client can do with the store: construct an object, call a method
    on any object, or call the facade.  A client that catches an exception
    goes on with the store as the failed call left it. *)
Inductive action : Type :=
| Construct
| Method (this : ref) (f : facade_call)
| Stringify (this : ref)
| Facade (f : facade_call).

Definition perform (h : heap) (a : action) : heap :=
  match a with
  | Construct => state_after new h
  | Method this f => state_after (run_method this f) h
  | Stringify this => state_after (on this prototype.stringify) h
  | Facade f => state_after (run_facade f) h
  end.

Definition perform_all (actions : list action) (h : heap) : heap :=
  foldl perform h actions.

(** Computations on [this], and on the store, that keep every rank sequence
    non-decreasing. *)
Definition ordered (this : MySuperBaseElementSelector) : Prop :=
  non_decreasing (order this).

Definition keeps {A} (body : Js MySuperBaseElementSelector A) : Prop :=
  forall this, ordered this -> ordered (state_after body this).

Definition Keeps {A} (c : Js heap A) : Prop :=
  forall h : heap, Forall ordered h -> Forall ordered (state_after c h).

(** A store to try things on: [div#main] behind reference 0, [table#data]
    behind reference 1, and a new object behind reference 2. *)
Definition three_selectors : heap :=
  state_after
    (let* div := cssSelectorBuilder.element "div" in
     send div (prototype.id "main") ;;
     let* table := cssSelectorBuilder.element "table" in
     send table (prototype.id "data") ;;
     new) [].

(** ** Chains of calls *)

(** A chain of append calls on one instance, [b.k1(v1).k2(v2)...]: each
    call runs only if the ones before it returned. *)
Definition chain (calls : list (kind * string)) : Js MySuperBaseElementSelector unit :=
  for_each (fun call => append call.1 call.2) calls.

(** The text a call contributes. *)
Definition text_of (call : kind * string) : string := decorate call.1 call.2.

(** The same chain the way a client writes it: the first call goes to the
    facade, the others to the instance it returned, and [stringify] ends it. *)
Definition facade_chain (k : kind) (value : string) (calls : list (kind * string))
  : Js heap string :=
  let* builder := facade k value in
  for_each (fun call => send builder (append call.1 call.2) ;; ret tt) calls ;;
  on builder prototype.stringify.

(** Two ways of nesting two [combine] calls of the facade. *)
Definition combine_left (a : ref) (c1 : string) (b : ref) (c2 : string) (d : ref)
  : Js heap string :=
  let* ab := cssSelectorBuilder.combine a c1 b in
  let* result := cssSelectorBuilder.combine ab c2 d in
  on result prototype.stringify.

Definition combine_right (a : ref) (c1 : string) (b : ref) (c2 : string) (d : ref)
  : Js heap string :=
  let* bd := cssSelectorBuilder.combine b c2 d in
  let* result := cssSelectorBuilder.combine a c1 bd in
  on result prototype.stringify.

(** A [combine] of the facade followed by an append on its result. *)
Definition combine_then_append (a : ref) (c : string) (b : ref) (k : kind) (value : string)
  : Js heap string :=
  let* result := cssSelectorBuilder.combine a c b in
  send result (append k value) ;;
  on result prototype.stringify.

(** ** Invariants of the objects of the store *)

Definition preserves (P : MySuperBaseElementSelector -> Prop) {A}
  (body : Js MySuperBaseElementSelector A) : Prop :=
  forall this, P this -> P (state_after body this).

Definition Preserves (P : MySuperBaseElementSelector -> Prop) {A}
  (c : Js heap A) : Prop :=
  forall h : heap, Forall P h -> Forall P (state_after c h).

(** Every recorded rank is one of the six ranks of the methods. *)
Definition ranks_known (this : MySuperBaseElementSelector) : Prop :=
  Forall (fun r => 1 <= r <= 6) (order this).

(** The rank of a once-only kind is recorded at most once, and only with
    the flag of the kind set. *)
Definition singletons_once (this : MySuperBaseElementSelector) : Prop :=
  forall k, once_only k = true ->
    (count_occ Z.eq_dec (order this) (rank k) <= 1)%nat
    /\ (In (rank k) (order this) -> seen k this = true).

(** ** Strings and arrays *)

Lemma append_cons a s t : String a s +:+ t = String a (s +:+ t).
Proof. reflexivity. Qed.

Lemma append_empty_r s : s +:+ "" = s.
Proof. induction s as [|a s IH]; [reflexivity|]. now rewrite append_cons, IH. Qed.

Lemma append_assoc s t u : (s +:+ t) +:+ u = s +:+ t +:+ u.
Proof. induction s as [|a s IH]; [reflexivity|]. now rewrite !append_cons, IH. Qed.

Lemma cat_app l1 l2 : cat (l1 ++ l2) = cat l1 +:+ cat l2.
Proof.
  induction l1 as [|x l1 IH]; [reflexivity|].
  unfold cat in *. cbn [foldr app]. now rewrite IH, append_assoc.
Qed.

Lemma cat_singleton x : cat [x] = x.
Proof. unfold cat. cbn [foldr]. apply append_empty_r. Qed.

(** Joining with the empty separator is plain concatenation. *)
Lemma join_empty l : JS.join "" l = cat l.
Proof.
  induction l as [|x [|y l] IH]; [reflexivity| |].
  - now rewrite cat_singleton.
  - change (JS.join "" (x :: y :: l)) with (x +:+ "" +:+ JS.join "" (y :: l)).
    rewrite IH. reflexivity.
Qed.

(** [slice(-1)] is the last element, if there is one. *)
Lemma slice_last {A} (l : list A) :
  JS.slice (-1) l = match last l with Some x => [x] | None => [] end.
Proof.
  unfold JS.slice. change (-1 <? 0) with true. cbn match.
  destruct l as [|a l] using rev_ind; [reflexivity|].
  rewrite last_snoc, length_app. cbn [length].
  apply drop_app_length'. lia.
Qed.

(** What the comparison in [checkOrder] decides: with no rank recorded it
    compares [0] with the new rank. *)
Lemma gt_slice_last (l : list Z) (n : Z) :
  JS.gt (JS.slice (-1) l) n
  = match last l with Some r => n <? r | None => n <? 0 end.
Proof. rewrite slice_last. now destruct (last l). Qed.

(** ** The append methods, step by step *)

Lemma checkOrder_run n this :
  prototype.checkOrder n this
  = (this, if JS.gt (JS.slice (-1) (order this)) n
           then inl OutOfOrderError else inr tt).
Proof.
  unfold prototype.checkOrder, bind, get, JS.truthy_array. cbn [andb].
  now destruct (JS.gt _ _).
Qed.

(** Every append method does the same four things in the same order: the
    once-only test, the flag and the push of the text, the order check, and
    the push of the rank. *)
Lemma append_run k value this :
  append k value this
  = if seen k this then (this, inl DuplicateFragmentError)
    else
      let pushed := with_arr (arr this ++ [decorate k value]) (mark k this) in
      if JS.gt (JS.slice (-1) (order this)) (rank k)
      then (pushed, inl OutOfOrderError)
      else (with_order (order this ++ [rank k]) pushed, inr tt).
Proof.
  destruct k; cbn [append seen mark rank decorate];
    unfold prototype.element, prototype.id, prototype.class, prototype.attr,
      prototype.pseudoClass, prototype.pseudoElement;
    unfold bind at 1; cbn [get];
    try match goal with |- context [if ?b then _ else _] =>
      destruct b eqn:Hflag; [reflexivity|] end;
    unfold bind, set_hasElement, set_hasId, set_hasPseudoElement, arr_push,
      order_push, modify;
    rewrite checkOrder_run; cbn [order with_arr with_order with_hasElement
      with_hasId with_hasPseudoElement arr];
    now destruct (JS.gt _ _).
Qed.

Lemma bind_ok {S A B} (c : Js S A) (k : A -> Js S B) s s' a :
  c s = (s', inr a) -> bind c k s = k a s'.
Proof. unfold bind. now intros ->. Qed.

Lemma bind_throw {S A B} (c : Js S A) (k : A -> Js S B) s s' e :
  c s = (s', inl e) -> bind c k s = (s', inl e).
Proof. unfold bind. now intros ->. Qed.

Lemma rank_pos k : 0 < rank k.
Proof. destruct k; cbn; lia. Qed.

(** The order check lets a rank through when no recorded rank exceeds it. *)
Lemma gt_bounded (l : list Z) (n : Z) :
  0 <= n -> Forall (fun r => r <= n) l -> JS.gt (JS.slice (-1) l) n = false.
Proof.
  intros Hn Hall. rewrite gt_slice_last.
  destruct (last l) as [r|] eqn:Hlast; [|lia].
  apply last_Some_elem_of in Hlast.
  rewrite Forall_forall in Hall. specialize (Hall r Hlast). cbv beta in Hall. lia.
Qed.

Lemma append_ok k value this :
  seen k this = false ->
  JS.gt (JS.slice (-1) (order this)) (rank k) = false ->
  append k value this
  = (with_order (order this ++ [rank k])
       (with_arr (arr this ++ [decorate k value]) (mark k this)), inr tt).
Proof. intros Hseen Hgt. rewrite append_run, Hseen. cbv zeta. now rewrite Hgt. Qed.

(** A repeatable kind can be appended any number of times in a row. *)
Lemma for_each_repeatable k values this :
  (forall o, seen k o = false) -> (forall o, mark k o = o) ->
  Forall (fun r => r <= rank k) (order this) ->
  for_each (append k) values this
  = (with_order (order this ++ replicate (length values) (rank k))
       (with_arr (arr this ++ map (decorate k) values) this), inr tt).
Proof.
  intros Hseen Hmark. revert this.
  induction values as [|v values IH]; intros this Hall.
  - cbn [for_each length replicate map]. rewrite !app_nil_r. now destruct this.
  - cbn [for_each].
    pose proof (rank_pos k) as Hpos.
    rewrite (bind_ok _ _ _ _ _ (append_ok k v this (Hseen this)
      (gt_bounded _ _ (Z.lt_le_incl _ _ Hpos) Hall))).
    rewrite IH.
    + rewrite Hmark. cbn [order arr with_arr with_order length replicate map].
      now rewrite <- !app_assoc.
    + cbn [order with_order]. apply Forall_app. split; [exact Hall|].
      repeat constructor. lia.
Qed.

Lemma errors_differ : DuplicateFragmentError <> OutOfOrderError.
Proof. discriminate. Qed.

(** The comparison in [checkOrder], in the words of the specification:
    a rank is recorded and the last one is greater than the new rank. *)
Lemma gt_rank_iff (l : list Z) (k : kind) :
  JS.gt (JS.slice (-1) l) (rank k) = true
  <-> exists r, last l = Some r /\ rank k < r.
Proof.
  rewrite gt_slice_last. pose proof (rank_pos k) as Hpos.
  destruct (last l) as [r|]; split.
  - intros H. exists r. split; [reflexivity|lia].
  - intros (r' & [= <-] & H). lia.
  - lia.
  - now intros (r' & [=] & _).
Qed.

(** An append call sets the flag of its own kind and no other, whether it
    returns or throws. *)
Lemma seen_after_append k k' value this :
  seen k (state_after (append k' value) this)
  = seen k this || (once_only k && bool_decide (k = k')).
Proof.
  unfold state_after. rewrite append_run.
  destruct (seen k' this) eqn:Hseen; cbn [fst].
  - destruct k, k'; cbn in *; rewrite ?Hseen, ?orb_false_r; reflexivity.
  - cbv zeta. destruct (JS.gt _ _); cbn [fst];
      destruct k, k', this; cbn; rewrite ?orb_false_r, ?orb_true_r; reflexivity.
Qed.

Lemma seen_after_attempt events : forall k this,
  seen k (attempt events this) = true
  <-> seen k this = true
      \/ (once_only k = true /\ exists value, In (Appends k value) events).
Proof.
  induction events as [|ev events IH]; intros k this; cbn [attempt In].
  - split; [now left | intros [H|(_ & ? & [])]; exact H].
  - rewrite IH. destruct ev as [k' v|t1 c t2]; cbn [receive].
    + rewrite seen_after_append, orb_true_iff, andb_true_iff, bool_decide_eq_true.
      split.
      * intros [[H|[Ho <-]]|(Ho & v' & Hin)]; eauto 8.
      * intros [H|(Ho & v' & [[= <- <-]|Hin])]; eauto 8.
    + replace (seen k (state_after (set_arr _) this)) with (seen k this)
        by now destruct k, this.
      split.
      * intros [H|(Ho & v' & Hin)]; eauto 8.
      * intros [H|(Ho & v' & [[=]|Hin])]; eauto 8.
Qed.

(** ** The rank sequence is non-decreasing *)

Lemma Sorted_snoc (l : list Z) (n : Z) :
  Sorted Z.le l -> (forall r, last l = Some r -> r <= n) -> Sorted Z.le (l ++ [n]).
Proof.
  induction l as [|x l IH]; intros Hs Hlast; cbn [app].
  - repeat constructor.
  - apply Sorted_inv in Hs as [Hs Hhd]. constructor.
    + apply IH; [exact Hs|]. intros r Hr. apply Hlast.
      destruct l; [discriminate|]. now rewrite last_cons_cons.
    + destruct l as [|y l]; cbn [app]; constructor.
      * apply Hlast. reflexivity.
      * now apply HdRel_inv in Hhd.
Qed.

Lemma keeps_append k value : keeps (append k value).
Proof.
  intros this Hord. unfold state_after, ordered in *. rewrite append_run.
  destruct (seen k this); cbn [fst]; [exact Hord|]. cbv zeta.
  destruct (JS.gt _ _) eqn:Hgt; cbn [fst].
  - now destruct k, this.
  - replace (order _) with (order this ++ [rank k]) by now destruct k, this.
    apply Sorted_snoc; [exact Hord|]. intros r Hr.
    rewrite gt_slice_last, Hr in Hgt. lia.
Qed.

Lemma keeps_stringify : keeps prototype.stringify.
Proof. now intros this Hord. Qed.

Lemma keeps_modify f :
  (forall this, order (f this) = order this) -> keeps (modify f).
Proof. intros Hf this Hord. unfold state_after, ordered, modify in *. cbn. now rewrite Hf. Qed.

Lemma Keeps_ret {A} (a : A) : Keeps (ret a).
Proof. now intros h Hh. Qed.

Lemma Keeps_bind {A B} (c : Js heap A) (k : A -> Js heap B) :
  Keeps c -> (forall a, Keeps (k a)) -> Keeps (bind c k).
Proof.
  intros Hc Hk h Hh. specialize (Hc h Hh). unfold state_after, bind in *.
  destruct (c h) as [h' [e|a]]; cbn [fst] in *; [exact Hc|].
  now apply Hk.
Qed.

Lemma Keeps_on {A} r (body : Js MySuperBaseElementSelector A) :
  keeps body -> Keeps (on r body).
Proof.
  intros Hbody h Hh. unfold state_after, on.
  destruct (h !! r) as [this|] eqn:Hr; [|exact Hh].
  specialize (Hbody this). unfold state_after in Hbody.
  destruct (body this) as [this' res]; cbn [fst] in *.
  apply Forall_insert; [exact Hh|]. apply Hbody.
  rewrite Forall_lookup in Hh. exact (Hh r this Hr).
Qed.

Lemma Keeps_new : Keeps new.
Proof.
  intros h Hh. unfold state_after, new. cbn [fst].
  apply Forall_app. split; [exact Hh|]. repeat constructor.
Qed.

Ltac keeps_step :=
  first [ apply Keeps_bind; [|intros ?] | apply Keeps_on | apply Keeps_ret
        | apply Keeps_new | apply keeps_append | apply keeps_stringify
        | apply keeps_modify; intros [] ; reflexivity ].

Lemma Keeps_run_method this f : Keeps (run_method this f).
Proof.
  destruct f as [k value|s1 c s2]; cbn [run_method];
    unfold send, prototype.combine, set_arr; repeat keeps_step.
Qed.

Lemma Keeps_run_facade f : Keeps (run_facade f).
Proof.
  destruct f as [k value|s1 c s2]; cbn [run_facade].
  - destruct k; cbn [facade];
      unfold cssSelectorBuilder.element, cssSelectorBuilder.id,
        cssSelectorBuilder.class, cssSelectorBuilder.attr,
        cssSelectorBuilder.pseudoClass, cssSelectorBuilder.pseudoElement,
        send, set_hasElement, set_hasId, set_hasPseudoElement;
      repeat keeps_step;
      first [ apply (keeps_append Element) | apply (keeps_append Id)
            | apply (keeps_append Class) | apply (keeps_append Attribute)
            | apply (keeps_append PseudoClass) | apply (keeps_append PseudoElement) ].
  - unfold cssSelectorBuilder.combine. apply Keeps_bind; [apply Keeps_new|].
    intros instance. apply Keeps_bind; [|intros ?; apply Keeps_ret].
    apply (Keeps_run_method instance (FCombine s1 c s2)).
Qed.

Lemma ordered_perform h a : Forall ordered h -> Forall ordered (perform h a).
Proof.
  intros Hh. destruct a as [|this f|this|f]; cbn [perform].
  - now apply Keeps_new.
  - now apply Keeps_run_method.
  - apply Keeps_on; [apply keeps_stringify | exact Hh].
  - now apply Keeps_run_facade.
Qed.

(** ** Method calls through references *)

Lemma on_Some {A} r (body : Js MySuperBaseElementSelector A) (h : heap) this :
  h !! r = Some this ->
  on r body h = (<[r := fst (body this)]> h, snd (body this)).
Proof. unfold on. intros ->. now destruct (body this). Qed.

Lemma on_last {A} (body : Js MySuperBaseElementSelector A) (h : heap) this :
  on (length h) body (h ++ [this]) = (h ++ [fst (body this)], snd (body this)).
Proof.
  rewrite (on_Some _ _ _ this) by apply list_lookup_middle, eq_refl.
  f_equal. rewrite <- (Nat.add_0_r (length h)). now rewrite insert_app_r.
Qed.

Lemma stringify_run this :
  prototype.stringify this = (this, inr (JS.join "" (arr this))).
Proof. reflexivity. Qed.

Lemma on_stringify r (h : heap) this :
  h !! r = Some this ->
  on r prototype.stringify h = (h, inr (JS.join "" (arr this))).
Proof.
  intros Hr. rewrite (on_Some _ _ _ this Hr). cbn [fst snd prototype.stringify].
  f_equal. now apply list_insert_id.
Qed.

Lemma on_stringify_inv r (h : heap) text :
  outcome (on r prototype.stringify) h = inr text ->
  exists this, h !! r = Some this /\ text = JS.join "" (arr this).
Proof.
  unfold outcome, on. destruct (h !! r) as [this|]; [|discriminate].
  cbn. intros [= <-]. now exists this.
Qed.

Lemma combine_run (h : heap) this selector1 combinator selector2 o o1 o2 :
  h !! this = Some o -> h !! selector1 = Some o1 -> h !! selector2 = Some o2 ->
  prototype.combine this selector1 combinator selector2 h
  = (<[this := with_arr [JS.join "" (arr o1); " " +:+ combinator +:+ " ";
                          JS.join "" (arr o2)] o]> h, inr this).
Proof.
  intros Hthis H1 H2. unfold prototype.combine.
  rewrite (bind_ok _ _ _ _ _ (on_stringify _ _ _ H1)).
  rewrite (bind_ok _ _ _ _ _ (on_stringify _ _ _ H2)).
  unfold bind. now rewrite (on_Some _ _ _ o Hthis).
Qed.

Lemma facade_combine_run (h : heap) selector1 combinator selector2 o1 o2 :
  h !! selector1 = Some o1 -> h !! selector2 = Some o2 ->
  cssSelectorBuilder.combine selector1 combinator selector2 h
  = (h ++ [with_arr [JS.join "" (arr o1); " " +:+ combinator +:+ " ";
                     JS.join "" (arr o2)] constructor], inr (length h)).
Proof.
  intros H1 H2. unfold cssSelectorBuilder.combine.
  unfold bind at 1. cbn [new].
  rewrite (bind_ok _ _ _ _ _
    (combine_run (h ++ [constructor]) (length h) selector1 combinator selector2
       constructor o1 o2 (list_lookup_middle _ _ _ _ eq_refl)
       (lookup_app_l_Some _ _ _ _ H1) (lookup_app_l_Some _ _ _ _ H2))).
  unfold ret. f_equal.
  rewrite <- (Nat.add_0_r (length h)) at 1. now rewrite insert_app_r.
Qed.

Lemma on_None {A} r (body : Js MySuperBaseElementSelector A) (h : heap) :
  h !! r = None -> on r body h = (h, inl TypeError).
Proof. unfold on. now intros ->. Qed.

(** [combine] writes to its receiver and to nothing else. *)
Lemma combine_writes_this_only (h : heap) this selector1 combinator selector2 :
  state_after (prototype.combine this selector1 combinator selector2) h = h
  \/ exists o, state_after (prototype.combine this selector1 combinator selector2) h
               = <[this := o]> h.
Proof.
  unfold state_after, prototype.combine.
  destruct (h !! selector1) as [o1|] eqn:H1;
    [|left; now rewrite (bind_throw _ _ _ _ _ (on_None _ _ _ H1))].
  rewrite (bind_ok _ _ _ _ _ (on_stringify _ _ _ H1)).
  destruct (h !! selector2) as [o2|] eqn:H2;
    [|left; now rewrite (bind_throw _ _ _ _ _ (on_None _ _ _ H2))].
  rewrite (bind_ok _ _ _ _ _ (on_stringify _ _ _ H2)).
  destruct (h !! this) as [o|] eqn:Hthis.
  - right. eexists. unfold bind. now rewrite (on_Some _ _ _ o Hthis).
  - left. now rewrite (bind_throw _ _ _ _ _ (on_None _ _ _ Hthis)).
Qed.

Lemma on_outcome_ext {A} r (body : Js MySuperBaseElementSelector A) (h h' : heap) :
  h' !! r = h !! r -> outcome (on r body) h' = outcome (on r body) h.
Proof.
  unfold outcome, on. intros ->. destruct (h !! r) as [o|]; [|reflexivity].
  now destruct (body o).
Qed.

Lemma append_constructor k value :
  append k value constructor = (state_after (append k value) constructor, inr tt).
Proof. now destruct k. Qed.

Lemma send_last body (h : heap) this this' :
  body this = (this', inr tt) ->
  send (length h) body (h ++ [this]) = (h ++ [this'], inr (length h)).
Proof. intros Hbody. unfold send, bind. now rewrite on_last, Hbody. Qed.

(** What a facade call for an append does to the store. *)
Lemma facade_run k value (h : heap) :
  facade k value h
  = (h ++ [state_after (append k value) constructor], inr (length h)).
Proof.
  pose proof (send_last _ h _ _ (append_constructor k value)) as Hsend.
  destruct k; cbn [facade append] in *;
    unfold cssSelectorBuilder.element, cssSelectorBuilder.id,
      cssSelectorBuilder.class, cssSelectorBuilder.attr,
      cssSelectorBuilder.pseudoClass, cssSelectorBuilder.pseudoElement;
    unfold bind at 1; cbn [new];
    rewrite (bind_ok _ _ _ _ _ Hsend);
    try reflexivity;
    unfold bind; rewrite on_last; reflexivity.
Qed.

(** The facade is [new], then the method on the new instance, then
    [return instance]; the extra flag assignments of [element], [id] and
    [pseudoElement] assign what the method has assigned already. *)
Lemma facade_is_new_then_method f (h : heap) :
  run_facade f h = (let* instance := new in run_method instance f ;; ret instance) h.
Proof.
  destruct f as [k value|s1 c s2]; [|reflexivity].
  cbn [run_facade run_method]. rewrite facade_run.
  unfold bind at 1. cbn [new].
  now rewrite (bind_ok _ _ _ _ _ (send_last _ h _ _ (append_constructor k value))).
Qed.

Lemma run_facade_shape f (h : heap) :
  arguments_allocated f h ->
  exists o, run_facade f h = (h ++ [o], inr (length h)).
Proof.
  destruct f as [k value|s1 c s2]; cbn [run_facade arguments_allocated].
  - intros _. eexists. apply facade_run.
  - intros [[o1 H1] [o2 H2]]. eexists.
    exact (facade_combine_run h s1 c s2 o1 o2 H1 H2).
Qed.

(** Reading an object's text depends on that object alone. *)
Lemma stringify_frame (h h' : heap) r :
  h' !! r = h !! r ->
  outcome (on r prototype.stringify) h' = outcome (on r prototype.stringify) h.
Proof. apply on_outcome_ext. Qed.

(** ** The example of the source's documentation *)

Example documentation_example_text :
  outcome documentation_example []
  = inr "div#main.container.draggable + table#data ~ tr:nth-of-type(even)   td:nth-of-type(even)".
Proof. reflexivity. Qed.

Example three_selectors_texts :
  outcome (on 0%nat prototype.stringify) three_selectors = inr "div#main"
  /\ outcome (on 1%nat prototype.stringify) three_selectors = inr "table#data"
  /\ outcome (on 2%nat prototype.stringify) three_selectors = inr "".
Proof. repeat split. Qed.

(** ** Claims *)

(** C1. On a new builder, [element] once, [id] once, [class] for each of
    [classes], [attr] for each of [attributes], [pseudoClass] for each of
    [pseudoClasses] and [pseudoElement] once, called in this order, all
    return normally; [stringify] then returns the element text, the id after
    a hash, every class after a dot, every attribute in brackets, every
    pseudo-class after a colon and the pseudo-element after two colons, in the
    order of the calls and with nothing in between or around. *)
Theorem C1_stringify_full_selector
  (e i : string) (classes attributes pseudoClasses : list string) (pe : string) :
  outcome
    (prototype.element e ;;
     prototype.id i ;;
     for_each prototype.class classes ;;
     for_each prototype.attr attributes ;;
     for_each prototype.pseudoClass pseudoClasses ;;
     prototype.pseudoElement pe ;;
     prototype.stringify) constructor
  = inr (e +:+ ("#" +:+ i)
         +:+ cat (map (fun c => "." +:+ c) classes)
         +:+ cat (map (fun a => "[" +:+ a +:+ "]") attributes)
         +:+ cat (map (fun p => ":" +:+ p) pseudoClasses)
         +:+ ("::" +:+ pe)).
Proof.
  assert (Hbound : forall (l : list Z) n m,
    Forall (fun r => r <= n) l -> n <= m -> Forall (fun r => r <= m) l).
  { intros l n m Hl Hnm. eapply Forall_impl; [exact Hl|]. cbv beta. lia. }
  unfold outcome.
  rewrite (bind_ok _ _ _ _ _ (append_ok Element e constructor eq_refl eq_refl)).
  cbn [mark rank decorate constructor with_arr with_order with_hasElement
       arr order hasElement hasId hasPseudoElement app].
  set (s1 := with_order _ _).
  rewrite (bind_ok _ _ _ _ _ (append_ok Id i s1 eq_refl eq_refl)).
  set (s2 := with_order _ _).
  assert (H2 : Forall (fun r => r <= rank Class) (order s2)).
  { repeat constructor; cbn; lia. }
  rewrite (bind_ok _ _ _ _ _ (for_each_repeatable Class classes s2
    (fun _ => eq_refl) (fun _ => eq_refl) H2)).
  set (s3 := with_order _ _).
  assert (H3 : Forall (fun r => r <= rank Attribute) (order s3)).
  { subst s3. cbn [order with_order]. apply Forall_app. split.
    - apply (Hbound _ _ _ H2). cbn. lia.
    - apply Forall_replicate. cbn. lia. }
  rewrite (bind_ok _ _ _ _ _ (for_each_repeatable Attribute attributes s3
    (fun _ => eq_refl) (fun _ => eq_refl) H3)).
  set (s4 := with_order _ _).
  assert (H4 : Forall (fun r => r <= rank PseudoClass) (order s4)).
  { subst s4. cbn [order with_order]. apply Forall_app. split.
    - apply (Hbound _ _ _ H3). cbn. lia.
    - apply Forall_replicate. cbn. lia. }
  rewrite (bind_ok _ _ _ _ _ (for_each_repeatable PseudoClass pseudoClasses s4
    (fun _ => eq_refl) (fun _ => eq_refl) H4)).
  set (s5 := with_order _ _).
  assert (H5 : Forall (fun r => r <= rank PseudoElement) (order s5)).
  { subst s5. cbn [order with_order]. apply Forall_app. split.
    - apply (Hbound _ _ _ H4). cbn. lia.
    - apply Forall_replicate. cbn. lia. }
  rewrite (bind_ok _ _ _ _ _ (append_ok PseudoElement pe s5 eq_refl
    (gt_bounded _ _ (Z.lt_le_incl _ _ (rank_pos _)) H5))).
  unfold prototype.stringify, bind, get, ret. cbn [snd].
  subst s5 s4 s3 s2 s1.
  cbn [arr with_arr with_order mark with_hasPseudoElement with_hasId
       with_hasElement constructor].
  rewrite join_empty, !cat_app, !cat_singleton.
  cbn [decorate cat foldr app]. rewrite !append_assoc. reflexivity.
Qed.

(** C2. [combine] on a receiver, with two selectors whose [stringify]
    returns [textA] and [textB] at the time of the call, returns the receiver
    and leaves it with exactly the three chunks [textA], the combinator
    between two spaces, and [textB]; its [stringify] is then the three
    put together.  The facade's [combine] does the same on a new instance.
    With ["div#main"], ["+"] and ["table#data"] the text is
    ["div#main + table#data"]. *)
Theorem C2_combine
  (h : heap) (this selectorA selectorB : ref) (combinator textA textB : string) :
  is_Some (h !! this) ->
  outcome (on selectorA prototype.stringify) h = inr textA ->
  outcome (on selectorB prototype.stringify) h = inr textB ->
  let chunks := [textA; " " +:+ combinator +:+ " "; textB] in
  let text := textA +:+ " " +:+ combinator +:+ " " +:+ textB in
  let method := prototype.combine this selectorA combinator selectorB in
  let factory := cssSelectorBuilder.combine selectorA combinator selectorB in
  outcome method h = inr this
  /\ arr <$> (state_after method h !! this) = Some chunks
  /\ outcome (on this prototype.stringify) (state_after method h) = inr text
  /\ outcome factory h = inr (length h)
  /\ arr <$> (state_after factory h !! length h) = Some chunks
  /\ outcome (let* result := factory in on result prototype.stringify) h = inr text
  /\ (combinator = "+" -> textA = "div#main" -> textB = "table#data" ->
      outcome (let* result := factory in on result prototype.stringify) h
      = inr "div#main + table#data").
Proof.
  intros [o Hthis] HA HB.
  apply on_stringify_inv in HA as (oa & HA & ->).
  apply on_stringify_inv in HB as (ob & HB & ->).
  cbv zeta.
  assert (Htext : forall x y z : string, JS.join "" [x; y; z] = x +:+ y +:+ z).
  { intros x y z. rewrite join_empty. unfold cat. cbn [foldr].
    now rewrite append_empty_r. }
  assert (Hfactory :
    outcome (let* result := cssSelectorBuilder.combine selectorA combinator selectorB
             in on result prototype.stringify) h
    = inr (JS.join "" (arr oa) +:+ " " +:+ combinator +:+ " " +:+ JS.join "" (arr ob))).
  { unfold outcome.
    rewrite (bind_ok _ _ _ _ _ (facade_combine_run h _ combinator _ _ _ HA HB)).
    rewrite on_last, stringify_run. cbn [snd arr with_arr].
    now rewrite Htext, !append_assoc. }
  unfold outcome, state_after in *.
  rewrite (combine_run h this _ combinator _ o oa ob Hthis HA HB).
  rewrite (facade_combine_run h _ combinator _ oa ob HA HB). cbn [fst snd].
  assert (Hlt : (this < length h)%nat) by now apply lookup_lt_Some in Hthis.
  rewrite (on_stringify this _ _ (list_lookup_insert_eq _ _ _ Hlt)).
  rewrite list_lookup_insert_eq by exact Hlt.
  rewrite list_lookup_middle by reflexivity.
  cbn [fst snd arr with_arr fmap option_fmap option_map].
  rewrite Htext, !append_assoc.
  repeat split; try assumption.
  intros -> HtA HtB. rewrite Hfactory, HtA, HtB. reflexivity.
Qed.

Lemma C2_combine_witness :
  is_Some (three_selectors !! 2%nat)
  /\ outcome (on 0%nat prototype.stringify) three_selectors = inr "div#main"
  /\ outcome (on 1%nat prototype.stringify) three_selectors = inr "table#data"
  /\ outcome (let* result := cssSelectorBuilder.combine 0%nat "+" 1%nat in
              on result prototype.stringify) three_selectors
     = inr "div#main + table#data"
  /\ outcome (on 2%nat prototype.stringify)
       (state_after (prototype.combine 2%nat 0%nat "+" 1%nat) three_selectors)
     = inr "div#main + table#data".
Proof.
  assert (Hthis : is_Some (three_selectors !! 2%nat)) by (eexists; reflexivity).
  assert (HA : outcome (on 0%nat prototype.stringify) three_selectors = inr "div#main")
    by reflexivity.
  assert (HB : outcome (on 1%nat prototype.stringify) three_selectors = inr "table#data")
    by reflexivity.
  destruct (C2_combine three_selectors 2%nat 0%nat 1%nat "+" "div#main" "table#data"
              Hthis HA HB) as (_ & _ & Hmethod & _ & _ & _ & Hfactory).
  split; [exact Hthis|]. split; [exact HA|]. split; [exact HB|].
  split; [exact (Hfactory eq_refl eq_refl eq_refl) | exact Hmethod].
Defined.

(** C3, as amended. An append call raises [OutOfOrderError] exactly when its
    once-only test does not fire first (the kind has no flag, or its flag is
    not set) and the rank recorded last on the instance is greater than the
    rank being appended.  So it is not raised when the new rank is at least
    the last one, nor when no rank is recorded.  In particular [class], [attr],
    [class] on a new builder (ranks 3, 4, 3) raises it on the second [class]
    call, and not before. *)
Theorem C3_out_of_order_iff :
  (forall (k : kind) (value : string) (this : MySuperBaseElementSelector),
     outcome (append k value) this = inl OutOfOrderError
     <-> seen k this = false
         /\ exists r, last (order this) = Some r /\ rank k < r)
  /\ outcome (prototype.class "a" ;; prototype.attr "b") constructor = inr tt
  /\ outcome (prototype.class "c")
       (state_after (prototype.class "a" ;; prototype.attr "b") constructor)
     = inl OutOfOrderError.
Proof.
  split; [|split; reflexivity].
  intros k value this. unfold outcome. rewrite append_run, <- gt_rank_iff.
  destruct (seen k this); cbn [snd].
  - split; [intros [= H]; now destruct errors_differ | now intros [? _]].
  - cbv zeta. destruct (JS.gt _ _); cbn [snd]; split; easy.
Qed.

(** C3 as stated fails: after [element] and [id] the last rank is 2, which
    is greater than the rank 1 of [element], yet a second [element] call
    raises [DuplicateFragmentError], since the once-only test comes first. *)
Lemma C3_counterexample :
  let this := state_after (prototype.element "a" ;; prototype.id "b") constructor in
  last (order this) = Some 2
  /\ rank Element < 2
  /\ outcome (prototype.element "c") this = inl DuplicateFragmentError
  /\ outcome (prototype.element "c") this <> inl OutOfOrderError.
Proof.
  cbv zeta. repeat split. intros [=].
Qed.

(** C4. [element], [id] and [pseudoElement] raise [DuplicateFragmentError]
    exactly when the flag of their kind is set on the instance; the other
    three methods never raise it.  On an instance that began as a new builder
    the flag of a kind is set exactly when a method of that once-only kind was
    called on it before (the first such call gets past the once-only test
    and pushes its text, whether or not it then fails the order check; a
    [combine] in between changes no flag).  So the error is raised when the
    kind was appended already and not otherwise.  In particular a second
    [element], a second [id] and a second [pseudoElement] call on one instance
    raise it. *)
Theorem C4_duplicate_iff :
  (forall (k : kind) (value : string) (this : MySuperBaseElementSelector),
     outcome (append k value) this = inl DuplicateFragmentError
     <-> seen k this = true)
  /\ (forall (events : list event) (k : kind),
        seen k (attempt events constructor) = true
        <-> once_only k = true /\ exists value, In (Appends k value) events)
  /\ (forall a b : string,
        outcome (prototype.element a ;; prototype.element b) constructor
        = inl DuplicateFragmentError
        /\ outcome (prototype.id a ;; prototype.id b) constructor
           = inl DuplicateFragmentError
        /\ outcome (prototype.pseudoElement a ;; prototype.pseudoElement b) constructor
           = inl DuplicateFragmentError).
Proof.
  split; [|split].
  - intros k value this. unfold outcome. rewrite append_run.
    destruct (seen k this); cbn [snd]; [easy|].
    cbv zeta. destruct (JS.gt _ _); cbn [snd]; split; easy.
  - intros events k. rewrite seen_after_attempt. split; [|now right].
    intros [H|H]; [|exact H]. now destruct k.
  - intros a b. repeat split.
Qed.

(** C5, as amended. When an append call raises an error, the recorded rank
    sequence is as it was before the call.  If the error is
    [DuplicateFragmentError], the whole instance is as it was.  If the error
    is [OutOfOrderError], the fragment sequence has the text of the failed
    append as a new last chunk and the flag of the appended kind, if it has
    one, is set; nothing else has changed. *)
Theorem C5_state_after_failed_append
  (k : kind) (value : string) (this : MySuperBaseElementSelector) (e : exn) :
  outcome (append k value) this = inl e ->
  order (state_after (append k value) this) = order this
  /\ ((e = DuplicateFragmentError
       /\ state_after (append k value) this = this)
      \/ (e = OutOfOrderError
          /\ state_after (append k value) this
             = with_arr (arr this ++ [decorate k value]) (mark k this))).
Proof.
  unfold outcome, state_after. rewrite append_run.
  destruct (seen k this); cbn [fst snd].
  - intros [= <-]. split; [reflexivity | now left].
  - cbv zeta. destruct (JS.gt _ _); cbn [fst snd]; intros [= <-].
    split; [now destruct k, this | now right].
Qed.

Lemma C5_state_after_failed_append_witness :
  let this := state_after (prototype.id "x") constructor in
  outcome (append Element "y") this = inl OutOfOrderError
  /\ order (state_after (append Element "y") this) = order this
  /\ ((OutOfOrderError = DuplicateFragmentError
       /\ state_after (append Element "y") this = this)
      \/ (OutOfOrderError = OutOfOrderError
          /\ state_after (append Element "y") this
             = with_arr (arr this ++ [decorate Element "y"]) (mark Element this))).
Proof.
  cbv zeta. split; [reflexivity|].
  apply (C5_state_after_failed_append Element "y"
           (state_after (prototype.id "x") constructor) OutOfOrderError).
  reflexivity.
Defined.

(** C5 as stated fails: [id] then [element] on a new builder raises
    [OutOfOrderError] on the [element] call, and by then the text of the
    element is in the fragment sequence and the element flag is set. *)
Lemma C5_counterexample :
  let this := state_after (prototype.id "x") constructor in
  outcome (prototype.element "y") this = inl OutOfOrderError
  /\ arr this = ["#x"]
  /\ arr (state_after (prototype.element "y") this) = ["#x"; "y"]
  /\ hasElement this = false
  /\ hasElement (state_after (prototype.element "y") this) = true
  /\ state_after (prototype.element "y") this <> this.
Proof.
  cbv zeta. repeat split. intros [=].
Qed.

(** C6. Whatever sequence of method calls and facade calls a client makes,
    on whatever objects, failed calls and [combine] included, every builder
    in the store has a non-decreasing rank sequence afterwards. *)
Theorem C6_rank_sequence_non_decreasing (actions : list action) :
  Forall (fun this => non_decreasing (order this)) (perform_all actions []).
Proof.
  unfold perform_all. change (Forall ordered (foldl perform [] actions)).
  assert (Hstart : Forall ordered ([] : heap)) by constructor.
  revert Hstart. generalize ([] : heap).
  induction actions as [|a actions IH]; intros h Hh; cbn [foldl].
  - exact Hh.
  - apply IH. now apply ordered_perform.
Qed.

(** C7. Every facade function makes a brand-new instance, one that was not
    in the store before, calls the matching method on it with the given
    arguments, and returns it.  No object already in the store is touched,
    so a later facade call neither returns nor changes the instance of an
    earlier one; and for the six append functions the new instance is in the
    state of a new builder after that one append. *)
Theorem C7_facade_makes_fresh_instance (f : facade_call) (h : heap) :
  arguments_allocated f h ->
  let instance := length h in
  let h1 := state_after (run_facade f) h in
  run_facade f h = (let* i := new in run_method i f ;; ret i) h
  /\ outcome (run_facade f) h = inr instance
  /\ h !! instance = None
  /\ (exists o, h1 = h ++ [o])
  /\ (forall k value, f = FAppend k value ->
        outcome (append k value) constructor = inr tt
        /\ h1 = h ++ [state_after (append k value) constructor])
  /\ (forall f2, arguments_allocated f2 h1 ->
        outcome (run_facade f2) h1 <> inr instance
        /\ state_after (run_facade f2) h1 !! instance = h1 !! instance).
Proof.
  intros Hargs. cbv zeta.
  destruct (run_facade_shape f h Hargs) as [o Ho].
  unfold outcome, state_after. rewrite Ho. cbn [fst snd].
  split; [rewrite <- Ho; apply facade_is_new_then_method|].
  split; [reflexivity|].
  split; [now apply lookup_ge_None_2|].
  split; [now exists o|].
  split.
  - intros k value ->. cbn [run_facade] in Ho. rewrite facade_run in Ho.
    split; [now destruct k | now injection Ho as <-].
  - intros f2 Hargs2.
    destruct (run_facade_shape f2 _ Hargs2) as [o2 Ho2].
    rewrite Ho2. cbn [fst snd]. rewrite length_app. cbn [length]. split.
    + intros [= H]. lia.
    + apply lookup_app_l. rewrite length_app. cbn [length]. lia.
Qed.

Lemma C7_facade_makes_fresh_instance_witness :
  let f := FCombine 0%nat "+" 1%nat in
  arguments_allocated f three_selectors
  /\ outcome (run_facade f) three_selectors = inr 3%nat
  /\ three_selectors !! 3%nat = None.
Proof.
  cbv zeta.
  assert (Hargs : arguments_allocated (FCombine 0%nat "+" 1%nat) three_selectors).
  { split; eexists; reflexivity. }
  split; [exact Hargs|].
  destruct (C7_facade_makes_fresh_instance _ _ Hargs) as (_ & Hout & Hnew & _).
  split; [exact Hout | exact Hnew].
Defined.

(** C9. When [element], [id] or [pseudoElement] raises
    [DuplicateFragmentError], the instance is left exactly as it was:
    fragment sequence, rank sequence and the three flags. *)
Theorem C9_duplicate_leaves_instance_unchanged
  (k : kind) (value : string) (this : MySuperBaseElementSelector) :
  outcome (append k value) this = inl DuplicateFragmentError ->
  state_after (append k value) this = this.
Proof.
  unfold outcome, state_after. rewrite append_run.
  destruct (seen k this); cbn [fst snd]; [reflexivity|].
  cbv zeta. destruct (JS.gt _ _); cbn [fst snd]; [|easy].
  intros [=].
Qed.

Lemma C9_duplicate_leaves_instance_unchanged_witness :
  let this := state_after (prototype.element "div" ;; prototype.id "main") constructor in
  outcome (prototype.id "other") this = inl DuplicateFragmentError
  /\ state_after (prototype.id "other") this = this.
Proof.
  cbv zeta. split; [reflexivity|].
  apply (C9_duplicate_leaves_instance_unchanged Id "other"
           (state_after (prototype.element "div" ;; prototype.id "main") constructor)).
  reflexivity.
Defined.

(** C10, as amended. When the receiver of [combine] is neither of the two
    argument selectors, the call leaves both arguments as they were, so their
    [stringify] returns the same texts after the call as before.  This is
    always so for the facade's [combine], whose receiver is a new instance. *)
Theorem C10_combine_leaves_arguments
  (h : heap) (this selector1 selector2 : ref) (combinator : string) :
  this <> selector1 -> this <> selector2 ->
  let h' := state_after (prototype.combine this selector1 combinator selector2) h in
  h' !! selector1 = h !! selector1
  /\ h' !! selector2 = h !! selector2
  /\ outcome (on selector1 prototype.stringify) h'
     = outcome (on selector1 prototype.stringify) h
  /\ outcome (on selector2 prototype.stringify) h'
     = outcome (on selector2 prototype.stringify) h
  /\ (is_Some (h !! selector1) -> is_Some (h !! selector2) ->
      let h'' := state_after (cssSelectorBuilder.combine selector1 combinator selector2) h in
      h'' !! selector1 = h !! selector1
      /\ h'' !! selector2 = h !! selector2
      /\ outcome (on selector1 prototype.stringify) h''
         = outcome (on selector1 prototype.stringify) h
      /\ outcome (on selector2 prototype.stringify) h''
         = outcome (on selector2 prototype.stringify) h).
Proof.
  intros Hne1 Hne2. cbv zeta.
  assert (Hmethod : forall r, this <> r ->
    state_after (prototype.combine this selector1 combinator selector2) h !! r = h !! r).
  { intros r Hr.
    destruct (combine_writes_this_only h this selector1 combinator selector2)
      as [-> | [o ->]]; [reflexivity|].
    now apply list_lookup_insert_ne. }
  assert (Hfacade : forall o1 o2 r o,
    h !! selector1 = Some o1 -> h !! selector2 = Some o2 -> h !! r = Some o ->
    state_after (cssSelectorBuilder.combine selector1 combinator selector2) h !! r
    = h !! r).
  { intros o1 o2 r o H1 H2 Hr. unfold state_after.
    rewrite (facade_combine_run h _ combinator _ o1 o2 H1 H2). cbn [fst].
    now rewrite (lookup_app_l_Some _ _ _ _ Hr). }
  split; [now apply Hmethod|].
  split; [now apply Hmethod|].
  split; [now apply stringify_frame, Hmethod|].
  split; [now apply stringify_frame, Hmethod|].
  intros [o1 H1] [o2 H2].
  pose proof (Hfacade o1 o2 selector1 o1 H1 H2 H1) as Hf1.
  pose proof (Hfacade o1 o2 selector2 o2 H1 H2 H2) as Hf2.
  split; [exact Hf1|]. split; [exact Hf2|].
  split; now apply stringify_frame.
Qed.

Lemma C10_combine_leaves_arguments_witness :
  let h' := state_after (prototype.combine 2%nat 0%nat "+" 1%nat) three_selectors in
  2%nat <> 0%nat /\ 2%nat <> 1%nat
  /\ outcome (on 2%nat prototype.stringify) h' = inr "div#main + table#data"
  /\ outcome (on 0%nat prototype.stringify) h' = inr "div#main"
  /\ outcome (on 1%nat prototype.stringify) h' = inr "table#data".
Proof.
  cbv zeta.
  assert (H0 : 2%nat <> 0%nat) by discriminate.
  assert (H1 : 2%nat <> 1%nat) by discriminate.
  destruct (C10_combine_leaves_arguments three_selectors 2%nat 0%nat 1%nat "+" H0 H1)
    as (_ & _ & Ha & Hb & _).
  split; [exact H0|]. split; [exact H1|]. split; [reflexivity|].
  split; [rewrite Ha | rewrite Hb]; reflexivity.
Defined.

(** C10 as stated fails when the receiver is one of the arguments:
    with [a] the selector [div#main] and [b] the selector [table#data],
    [a.combine(a, "+", b)] returns normally and leaves [a] with the combined
    text, so [a.stringify()] is no longer what it was before the call. *)
Lemma C10_counterexample :
  let a := 0%nat in
  let b := 1%nat in
  let h' := state_after (prototype.combine a a "+" b) three_selectors in
  outcome (prototype.combine a a "+" b) three_selectors = inr a
  /\ outcome (on a prototype.stringify) three_selectors = inr "div#main"
  /\ outcome (on a prototype.stringify) h' = inr "div#main + table#data"
  /\ outcome (on a prototype.stringify) h'
     <> outcome (on a prototype.stringify) three_selectors.
Proof.
  cbv zeta. repeat split. intros [=].
Qed.

(** ** Further properties of the methods *)

(** X1. [checkOrder] as a method of its own: it never changes the instance; it
    throws exactly when the rank recorded last is greater than the number,
    or when no rank is recorded and the number is negative (the empty array
    that [slice(-1)] returns then counts as [0]); otherwise it returns. *)
Theorem checkOrder_throws_iff (number : Z) (this : MySuperBaseElementSelector) :
  state_after (prototype.checkOrder number) this = this
  /\ (outcome (prototype.checkOrder number) this = inl OutOfOrderError
      <-> (exists r, last (order this) = Some r /\ number < r)
          \/ (order this = [] /\ number < 0))
  /\ (outcome (prototype.checkOrder number) this = inr tt
      \/ outcome (prototype.checkOrder number) this = inl OutOfOrderError).
Proof.
  unfold state_after, outcome. rewrite checkOrder_run, gt_slice_last. cbn [fst snd].
  split; [reflexivity|].
  destruct (last (order this)) as [r|] eqn:Hlast.
  - destruct (Z.ltb_spec number r); split; try (now left); try (now right).
    + split; [intros _; left; eauto | reflexivity].
    + split; [discriminate|]. intros [(r' & [= <-] & H')|[Hnil _]]; [lia|].
      rewrite Hnil in Hlast. discriminate.
  - apply last_None in Hlast.
    destruct (Z.ltb_spec number 0); split; try (now left); try (now right).
    + split; [intros _; now right | reflexivity].
    + split; [discriminate|]. intros [(r' & [=] & _)|[_ H']]. lia.
Qed.

(** The text of the instance after an append call. *)
Lemma text_after_append k value this :
  JS.join "" (arr (state_after (append k value) this))
  = if seen k this then JS.join "" (arr this)
    else JS.join "" (arr this) +:+ decorate k value.
Proof.
  unfold state_after. rewrite append_run.
  destruct (seen k this); cbn [fst]; [reflexivity|]. cbv zeta.
  destruct (JS.gt _ _); cbn [fst arr with_arr with_order];
    now rewrite !join_empty, cat_app, cat_singleton.
Qed.

(** X2. Unless it raises the duplicate error, an append call puts its text at
    the end of what [stringify] returns: also when it raises the order error. *)
Theorem append_extends_text (k : kind) (value : string)
  (this : MySuperBaseElementSelector) :
  outcome (append k value) this <> inl DuplicateFragmentError ->
  outcome prototype.stringify (state_after (append k value) this)
  = inr (JS.join "" (arr this) +:+ decorate k value).
Proof.
  intros Hnodup. unfold outcome in *. rewrite stringify_run. cbn [snd].
  rewrite text_after_append. rewrite append_run in Hnodup.
  destruct (seen k this); [now destruct Hnodup | reflexivity].
Qed.

Lemma append_extends_text_witness :
  let this := state_after (prototype.attr "href") constructor in
  outcome (append Class "big") this = inl OutOfOrderError
  /\ outcome prototype.stringify (state_after (append Class "big") this)
     = inr "[href].big".
Proof.
  cbv zeta. split; [reflexivity|].
  apply (append_extends_text Class "big"
           (state_after (prototype.attr "href") constructor)).
  discriminate.
Defined.

(** X3. An [element], [id] or [pseudoElement] call that fails the order check
    cannot be made again: its flag is set by then, so the next call of that
    method raises the duplicate error, whatever its argument. *)
Theorem order_failure_blocks_retry (k : kind) (value value' : string)
  (this : MySuperBaseElementSelector) :
  once_only k = true ->
  outcome (append k value) this = inl OutOfOrderError ->
  outcome (append k value') (state_after (append k value) this)
  = inl DuplicateFragmentError.
Proof.
  intros Honce Hfail. unfold outcome.
  rewrite (append_run k value'), seen_after_append, Honce.
  rewrite bool_decide_eq_true_2 by reflexivity.
  now rewrite orb_true_r.
Qed.

Lemma order_failure_blocks_retry_witness :
  let this := state_after (prototype.class "c") constructor in
  once_only Id = true
  /\ outcome (append Id "a") this = inl OutOfOrderError
  /\ outcome (append Id "b") (state_after (append Id "a") this)
     = inl DuplicateFragmentError.
Proof.
  cbv zeta. split; [reflexivity|]. split; [reflexivity|].
  apply (order_failure_blocks_retry Id "a" "b"
           (state_after (prototype.class "c") constructor)); reflexivity.
Defined.

(** X4. The duplicate error is for good: once a method raises it on an
    instance, it raises it after any further append calls and [combine]
    calls on that instance, which never reset a flag. *)
Theorem duplicate_is_permanent (k : kind) (value value' : string)
  (events : list event) (this : MySuperBaseElementSelector) :
  outcome (append k value) this = inl DuplicateFragmentError ->
  outcome (append k value') (attempt events this) = inl DuplicateFragmentError.
Proof.
  unfold outcome. rewrite !append_run.
  destruct (seen k this) eqn:Hseen.
  - intros _.
    assert (Hlater : seen k (attempt events this) = true)
      by (apply seen_after_attempt; now left).
    now rewrite Hlater.
  - cbv zeta. destruct (JS.gt _ _); cbn [snd]; [intros [=] | discriminate].
Qed.

Lemma duplicate_is_permanent_witness :
  let this := state_after (prototype.element "div") constructor in
  outcome (append Element "p") this = inl DuplicateFragmentError
  /\ outcome (append Element "q")
       (attempt [Appends Class "c"; Combines "x" ">" "y"; Appends Id "i"] this)
     = inl DuplicateFragmentError.
Proof.
  cbv zeta. split; [reflexivity|].
  apply (duplicate_is_permanent Element "p" "q"
           [Appends Class "c"; Combines "x" ">" "y"; Appends Id "i"]
           (state_after (prototype.element "div") constructor)).
  reflexivity.
Defined.

(** ** Chains of append calls *)

Lemma Sorted_slice_cons (l : list Z) (k : kind) (rest : list Z) :
  Sorted Z.le (JS.slice (-1) l ++ rank k :: rest)
  <-> JS.gt (JS.slice (-1) l) (rank k) = false /\ Sorted Z.le (rank k :: rest).
Proof.
  rewrite gt_slice_last, slice_last. pose proof (rank_pos k) as Hpos.
  destruct (last l) as [r|]; cbn [app].
  - split.
    + intros H. apply Sorted_inv in H as [H1 H2]. apply HdRel_inv in H2.
      split; [lia | exact H1].
    + intros [H1 H2]. constructor; [exact H2 | constructor; lia].
  - split; [intros H; split; [lia | exact H] | now intros [_ H]].
Qed.

Lemma seen_after_push k' k (l : list Z) (a : list string) this :
  seen k' (with_order l (with_arr a (mark k this)))
  = seen k' this || (once_only k' && bool_decide (k' = k)).
Proof.
  destruct k', k, this; cbn; rewrite ?orb_false_r, ?orb_true_r; reflexivity.
Qed.

Lemma chain_cons k value calls this :
  chain ((k, value) :: calls) this
  = bind (append k value) (fun _ => chain calls) this.
Proof. reflexivity. Qed.

(** When a chain returns, measured from any instance: the ranks of the
    calls continue the rank recorded last without stepping down, no
    once-only kind is called twice, and none of the kinds called has its flag
    set already. *)
Lemma chain_returns_iff calls : forall this,
  outcome (chain calls) this = inr tt
  <-> Sorted Z.le (JS.slice (-1) (order this) ++ map rank (map fst calls))
      /\ NoDup (filter (fun k => once_only k = true) (map fst calls))
      /\ Forall (fun k => seen k this = false) (map fst calls).
Proof.
  induction calls as [|[k v] calls IH]; intros this.
  - cbn [map]. split; [intros _ | reflexivity].
    rewrite app_nil_r, slice_last.
    split; [destruct (last _); repeat constructor | split; constructor].
  - unfold outcome. rewrite chain_cons. unfold bind. rewrite append_run.
    cbn [map fst]. rewrite Sorted_slice_cons, Forall_cons.
    destruct (seen k this) eqn:Hseen; [split; [discriminate | now intros (_ & _ & [=] & _)]|].
    cbv zeta. destruct (JS.gt _ _) eqn:Hgt; [split; [discriminate | now intros ([[=] _] & _)]|].
    specialize (IH (with_order (order this ++ [rank k])
                      (with_arr (arr this ++ [decorate k v]) (mark k this)))).
    unfold outcome in IH. rewrite IH. clear IH.
    cbn [order with_order]. rewrite slice_last, last_snoc. cbn [app].
    rewrite !Forall_forall.
    assert (Hfilter :
      NoDup (filter (fun k0 => once_only k0 = true) (k :: map fst calls))
      <-> NoDup (filter (fun k0 => once_only k0 = true) (map fst calls))
          /\ (once_only k = true -> k ∉ map fst calls)).
    { destruct (once_only k) eqn:Honce.
      - rewrite filter_cons_True by exact Honce.
        rewrite NoDup_cons, list_elem_of_filter. tauto.
      - rewrite filter_cons_False by congruence. split; [|tauto].
        intros H. split; [exact H | discriminate]. }
    rewrite Hfilter. clear Hfilter.
    split.
    + intros (Hs & Hnd & Hall). repeat split; try assumption.
      * intros Honce Hin. specialize (Hall k Hin).
        rewrite seen_after_push, Honce, bool_decide_eq_true_2 in Hall by reflexivity.
        now rewrite orb_true_r in Hall.
      * intros k' Hin. specialize (Hall k' Hin).
        rewrite seen_after_push in Hall. now apply orb_false_iff in Hall.
    + intros ((_ & Hs) & (Hnd & Hnotin) & _ & Hall). repeat split; try assumption.
      intros k' Hin. rewrite seen_after_push, (Hall k' Hin). cbn [orb].
      apply andb_false_iff. destruct (once_only k') eqn:Honce; [right | now left].
      apply bool_decide_eq_false_2. intros ->. now apply Hnotin.
Qed.

(** What a chain that returns leaves on the instance. *)
Lemma chain_returns_state calls : forall this,
  outcome (chain calls) this = inr tt ->
  arr (state_after (chain calls) this) = arr this ++ map text_of calls
  /\ order (state_after (chain calls) this) = order this ++ map rank (map fst calls).
Proof.
  induction calls as [|[k v] calls IH]; intros this.
  - intros _. cbn. now rewrite !app_nil_r.
  - unfold outcome, state_after. rewrite chain_cons. unfold bind.
    rewrite append_run.
    destruct (seen k this); [discriminate|]. cbv zeta.
    destruct (JS.gt _ _); [discriminate|]. intros Hrest.
    destruct (IH _ Hrest) as [Harr Horder]. unfold state_after in Harr, Horder.
    rewrite Harr, Horder. cbn [arr order with_arr with_order map fst].
    unfold text_of at 2. cbn [fst snd]. now rewrite <- !app_assoc.
Qed.

(** X5. A chain of append calls on a new builder returns exactly when the ranks
    of the calls never step down and [element], [id] and [pseudoElement] are
    each called at most once; any of the six calls may be left out and
    [class], [attr] and [pseudoClass] may be repeated. *)
Theorem chain_accepted_iff (calls : list (kind * string)) :
  outcome (chain calls) constructor = inr tt
  <-> Sorted Z.le (map rank (map fst calls))
      /\ NoDup (filter (fun k => once_only k = true) (map fst calls)).
Proof.
  rewrite chain_returns_iff. cbn [order constructor app].
  change (JS.slice (-1) []) with (@nil Z). cbn [app].
  split; [now intros (Hs & Hnd & _) | intros [Hs Hnd]].
  repeat split; try assumption.
  apply Forall_forall. intros k _. now destruct k.
Qed.

(** X6. When a chain of append calls on a new builder returns, [stringify]
    gives the texts of the calls one after the other, in the order of the
    calls, and the rank sequence lists the ranks of the calls. *)
Theorem chain_text (calls : list (kind * string)) :
  outcome (chain calls) constructor = inr tt ->
  outcome (chain calls ;; prototype.stringify) constructor
  = inr (cat (map text_of calls))
  /\ order (state_after (chain calls) constructor) = map rank (map fst calls).
Proof.
  intros Hok. destruct (chain_returns_state calls constructor Hok) as [Harr Horder].
  split; [|exact Horder].
  unfold outcome, state_after, bind in *.
  destruct (chain calls constructor) as [this' [e|[]]]; [discriminate|].
  cbn [fst] in Harr. rewrite stringify_run. cbn [snd].
  now rewrite Harr, join_empty.
Qed.

Lemma chain_text_witness :
  let calls := [(Id, "main"); (Class, "container"); (Class, "editable")] in
  outcome (chain calls) constructor = inr tt
  /\ outcome (chain calls ;; prototype.stringify) constructor
     = inr "#main.container.editable".
Proof.
  cbv zeta. split; [reflexivity|].
  apply (chain_text [(Id, "main"); (Class, "container"); (Class, "editable")]).
  reflexivity.
Defined.

(** ** Further properties of programs over the store *)

Lemma join_three (x y z : string) : JS.join "" [x; y; z] = x +:+ y +:+ z.
Proof. rewrite join_empty. unfold cat. cbn [foldr]. now rewrite append_empty_r. Qed.

(** X7. [stringify] is a pure read: it leaves the whole store as it is, it
    returns the chunks of the instance put together, and calling it again
    returns the same. *)
Theorem stringify_is_pure (h : heap) (r : ref) :
  state_after (on r prototype.stringify) h = h
  /\ outcome (on r prototype.stringify) h
     = match h !! r with
       | Some this => inr (cat (arr this))
       | None => inl TypeError
       end
  /\ outcome (on r prototype.stringify ;; on r prototype.stringify) h
     = outcome (on r prototype.stringify) h.
Proof.
  unfold state_after, outcome.
  destruct (h !! r) as [this|] eqn:Hr.
  - rewrite (bind_ok _ _ _ _ _ (on_stringify r h this Hr)).
    rewrite (on_stringify r h this Hr). cbn [fst snd].
    now rewrite join_empty.
  - rewrite (bind_throw _ _ _ _ _ (on_None r prototype.stringify h Hr)).
    now rewrite (on_None r prototype.stringify h Hr).
Qed.

(** X8. [combine] replaces the chunks of its receiver and nothing else of it:
    the rank sequence and the three flags of the receiver stay as they were,
    whatever the arguments are. *)
Theorem combine_keeps_ranks_and_flags
  (h : heap) (this selector1 selector2 : ref) (combinator : string)
  (o : MySuperBaseElementSelector) :
  h !! this = Some o ->
  exists o',
    state_after (prototype.combine this selector1 combinator selector2) h !! this
    = Some o'
    /\ order o' = order o
    /\ hasElement o' = hasElement o
    /\ hasId o' = hasId o
    /\ hasPseudoElement o' = hasPseudoElement o.
Proof.
  intros Hthis. unfold state_after.
  destruct (h !! selector1) as [o1|] eqn:H1; cycle 1.
  { unfold prototype.combine.
    rewrite (bind_throw _ _ _ _ _ (on_None _ _ _ H1)). cbn [fst]. now exists o. }
  destruct (h !! selector2) as [o2|] eqn:H2; cycle 1.
  { unfold prototype.combine.
    rewrite (bind_ok _ _ _ _ _ (on_stringify _ _ _ H1)).
    rewrite (bind_throw _ _ _ _ _ (on_None _ _ _ H2)). cbn [fst]. now exists o. }
  rewrite (combine_run h this _ combinator _ o o1 o2 Hthis H1 H2). cbn [fst].
  eexists. split; [apply list_lookup_insert_eq; now apply lookup_lt_Some in Hthis|].
  now destruct o.
Qed.

Lemma combine_keeps_ranks_and_flags_witness :
  exists o',
    state_after (prototype.combine 0%nat 0%nat ">" 1%nat) three_selectors !! 0%nat
    = Some o'
    /\ order o' = [1; 2]
    /\ hasElement o' = true
    /\ hasId o' = true
    /\ hasPseudoElement o' = false.
Proof.
  assert (H0 : three_selectors !! 0%nat
               = Some (mkSelector ["div"; "#main"] [1; 2] true true false))
    by reflexivity.
  destruct (combine_keeps_ranks_and_flags three_selectors 0%nat 0%nat 1%nat ">" _ H0)
    as (o' & Hlookup & Horder & He & Hi & Hp).
  exists o'. repeat split; assumption.
Defined.

(** X9. The instance that the facade's [combine] returns has no rank recorded
    and no flag set, so an append of any kind is accepted on it; its text goes
    after the combined text. *)
Theorem append_after_combine
  (h : heap) (a b : ref) (combinator textA textB : string)
  (k : kind) (value : string) :
  outcome (on a prototype.stringify) h = inr textA ->
  outcome (on b prototype.stringify) h = inr textB ->
  outcome (combine_then_append a combinator b k value) h
  = inr (textA +:+ " " +:+ combinator +:+ " " +:+ textB +:+ decorate k value).
Proof.
  intros HA HB.
  apply on_stringify_inv in HA as (oa & HA & ->).
  apply on_stringify_inv in HB as (ob & HB & ->).
  unfold outcome, combine_then_append.
  rewrite (bind_ok _ _ _ _ _ (facade_combine_run h a combinator b oa ob HA HB)).
  set (o := with_arr _ constructor).
  assert (Happend : append k value o
    = (with_order (order o ++ [rank k])
         (with_arr (arr o ++ [decorate k value]) (mark k o)), inr tt)).
  { apply append_ok; now destruct k. }
  rewrite (bind_ok _ _ _ _ _ (send_last _ h _ _ Happend)).
  rewrite on_last, stringify_run. cbn [snd arr with_arr with_order].
  subst o. cbn [arr with_arr app].
  rewrite join_empty. unfold cat. cbn [foldr].
  now rewrite append_empty_r, !append_assoc.
Qed.

Lemma append_after_combine_witness :
  outcome (on 0%nat prototype.stringify) three_selectors = inr "div#main"
  /\ outcome (on 1%nat prototype.stringify) three_selectors = inr "table#data"
  /\ outcome (combine_then_append 0%nat ">" 1%nat Element "tr") three_selectors
     = inr "div#main > table#datatr".
Proof.
  split; [reflexivity|]. split; [reflexivity|].
  apply (append_after_combine three_selectors 0%nat 1%nat ">" "div#main" "table#data"
           Element "tr"); reflexivity.
Defined.

(** X10. Nested [combine] calls of the facade read from left to right, and the
    two ways of nesting give the same text: the inner selector is taken as
    its text, with no look at how it was built. *)
Theorem nested_combine_text
  (h : heap) (a b d : ref) (c1 c2 textA textB textD : string) :
  outcome (on a prototype.stringify) h = inr textA ->
  outcome (on b prototype.stringify) h = inr textB ->
  outcome (on d prototype.stringify) h = inr textD ->
  let text := textA +:+ " " +:+ c1 +:+ " " +:+ textB
              +:+ " " +:+ c2 +:+ " " +:+ textD in
  outcome (combine_left a c1 b c2 d) h = inr text
  /\ outcome (combine_right a c1 b c2 d) h = inr text.
Proof.
  intros HA HB HD. cbv zeta.
  apply on_stringify_inv in HA as (oa & HA & ->).
  apply on_stringify_inv in HB as (ob & HB & ->).
  apply on_stringify_inv in HD as (od & HD & ->).
  unfold outcome, combine_left, combine_right. split.
  - rewrite (bind_ok _ _ _ _ _ (facade_combine_run h a c1 b oa ob HA HB)).
    set (oab := with_arr _ constructor).
    rewrite (bind_ok _ _ _ _ _
      (facade_combine_run (h ++ [oab]) (length h) c2 d oab od
         (list_lookup_middle _ _ _ _ eq_refl) (lookup_app_l_Some _ _ _ _ HD))).
    rewrite on_last, stringify_run. cbn [snd arr with_arr]. subst oab.
    cbn [arr with_arr]. now rewrite !join_three, !append_assoc.
  - rewrite (bind_ok _ _ _ _ _ (facade_combine_run h b c2 d ob od HB HD)).
    set (obd := with_arr _ constructor).
    rewrite (bind_ok _ _ _ _ _
      (facade_combine_run (h ++ [obd]) a c1 (length h) oa obd
         (lookup_app_l_Some _ _ _ _ HA) (list_lookup_middle _ _ _ _ eq_refl))).
    rewrite on_last, stringify_run. cbn [snd arr with_arr]. subst obd.
    cbn [arr with_arr]. now rewrite !join_three, !append_assoc.
Qed.

Lemma nested_combine_text_witness :
  outcome (on 0%nat prototype.stringify) three_selectors = inr "div#main"
  /\ outcome (on 1%nat prototype.stringify) three_selectors = inr "table#data"
  /\ outcome (on 2%nat prototype.stringify) three_selectors = inr ""
  /\ outcome (combine_left 0%nat "+" 1%nat "~" 2%nat) three_selectors
     = inr "div#main + table#data ~ "
  /\ outcome (combine_right 0%nat "+" 1%nat "~" 2%nat) three_selectors
     = inr "div#main + table#data ~ ".
Proof.
  split; [reflexivity|]. split; [reflexivity|]. split; [reflexivity|].
  apply (nested_combine_text three_selectors 0%nat 1%nat 2%nat "+" "~"
           "div#main" "table#data" ""); reflexivity.
Defined.

Lemma send_then_ret body (h : heap) this :
  (send (length h) body ;; ret tt) (h ++ [this])
  = (h ++ [fst (body this)],
     match snd (body this) with inl e => inl e | inr _ => inr tt end).
Proof.
  unfold send, bind. rewrite on_last. now destruct (body this) as [? [|]].
Qed.

(** Method calls through the reference of the last object of the store
    are the chain on that object. *)
Lemma for_each_send_last calls : forall (h : heap) this,
  for_each (fun call => send (length h) (append call.1 call.2) ;; ret tt) calls
    (h ++ [this])
  = (h ++ [state_after (chain calls) this], outcome (chain calls) this).
Proof.
  induction calls as [|[k v] calls IH]; intros h this; [reflexivity|].
  unfold state_after, outcome. rewrite chain_cons.
  cbn [for_each fst snd]. unfold bind at 1. rewrite send_then_ret.
  unfold bind.
  destruct (append k v this) as [this' [e|[]]]; cbn [fst snd]; [reflexivity|].
  apply IH.
Qed.

Lemma bind_run {S A B} (c : Js S A) (k : A -> Js S B) s :
  bind c k s
  = match c s with
    | (s', inl e) => (s', inl e)
    | (s', inr a) => k a s'
    end.
Proof. reflexivity. Qed.

(** X11. A chain written through the facade, in any store, returns what the
    chain of methods returns on a new builder, text or error; it adds that one
    builder to the store and leaves every other object alone. *)
Theorem facade_chain_agrees
  (k : kind) (value : string) (calls : list (kind * string)) (h : heap) :
  outcome (facade_chain k value calls) h
  = outcome (chain ((k, value) :: calls) ;; prototype.stringify) constructor
  /\ state_after (facade_chain k value calls) h
     = h ++ [state_after (chain ((k, value) :: calls)) constructor].
Proof.
  unfold outcome, state_after, facade_chain.
  rewrite (bind_ok _ _ _ _ _ (facade_run k value h)).
  rewrite (bind_run (for_each _ _)), for_each_send_last.
  rewrite (bind_run (chain _)), !chain_cons.
  rewrite !(bind_run (append _ _)), append_constructor.
  unfold state_after, outcome.
  destruct (chain calls _) as [this' [e|[]]]; cbn [fst snd]; [now split|].
  rewrite on_last, stringify_run. now split.
Qed.

(** ** Invariants of every object of the store *)

Section Invariant.

Variable P : MySuperBaseElementSelector -> Prop.

Hypothesis P_new : P constructor.
Hypothesis P_append : forall k value, preserves P (append k value).
Hypothesis P_arr : forall a this, P this -> P (with_arr a this).
Hypothesis P_flags : forall this, P this ->
  P (with_hasElement true this) /\ P (with_hasId true this)
  /\ P (with_hasPseudoElement true this).

Lemma Preserves_ret {A} (a : A) : Preserves P (ret a).
Proof. now intros h Hh. Qed.

Lemma Preserves_bind {A B} (c : Js heap A) (k : A -> Js heap B) :
  Preserves P c -> (forall a, Preserves P (k a)) -> Preserves P (bind c k).
Proof.
  intros Hc Hk h Hh. specialize (Hc h Hh). unfold state_after, bind in *.
  destruct (c h) as [h' [e|a]]; cbn [fst] in *; [exact Hc|].
  now apply Hk.
Qed.

Lemma Preserves_on {A} r (body : Js MySuperBaseElementSelector A) :
  preserves P body -> Preserves P (on r body).
Proof.
  intros Hbody h Hh. unfold state_after, on.
  destruct (h !! r) as [this|] eqn:Hr; [|exact Hh].
  specialize (Hbody this). unfold state_after in Hbody.
  destruct (body this) as [this' res]; cbn [fst] in *.
  apply Forall_insert; [exact Hh|]. apply Hbody.
  rewrite Forall_lookup in Hh. exact (Hh r this Hr).
Qed.

Lemma Preserves_new : Preserves P new.
Proof.
  intros h Hh. unfold state_after, new. cbn [fst].
  apply Forall_app. split; [exact Hh|]. now repeat constructor.
Qed.

Lemma preserves_stringify : preserves P prototype.stringify.
Proof. now intros this Hthis. Qed.

Lemma Preserves_send r k value : Preserves P (send r (append k value)).
Proof.
  unfold send. apply Preserves_bind; [|intros ?; apply Preserves_ret].
  apply Preserves_on, P_append.
Qed.

Lemma Preserves_combine this selector1 combinator selector2 :
  Preserves P (prototype.combine this selector1 combinator selector2).
Proof.
  unfold prototype.combine.
  apply Preserves_bind; [apply Preserves_on, preserves_stringify|]. intros text1.
  apply Preserves_bind; [apply Preserves_on, preserves_stringify|]. intros text2.
  apply Preserves_bind; [|intros ?; apply Preserves_ret].
  apply Preserves_on. intros o Ho. now apply P_arr.
Qed.

Lemma Preserves_run_method this f : Preserves P (run_method this f).
Proof.
  destruct f as [k value|s1 c s2]; cbn [run_method].
  - apply Preserves_send.
  - apply Preserves_combine.
Qed.

Lemma Preserves_flag r (f : MySuperBaseElementSelector -> MySuperBaseElementSelector) :
  (forall this, P this -> P (f this)) -> Preserves P (on r (modify f)).
Proof. intros Hf. apply Preserves_on. intros this Hthis. now apply Hf. Qed.

Lemma Preserves_run_facade f : Preserves P (run_facade f).
Proof.
  destruct f as [k value|s1 c s2]; cbn [run_facade].
  - destruct k; cbn [facade];
      unfold cssSelectorBuilder.element, cssSelectorBuilder.id,
        cssSelectorBuilder.class, cssSelectorBuilder.attr,
        cssSelectorBuilder.pseudoClass, cssSelectorBuilder.pseudoElement;
      (apply Preserves_bind; [apply Preserves_new|]); intros instance;
      (apply Preserves_bind;
        [first [ apply (Preserves_send instance Element)
               | apply (Preserves_send instance Id)
               | apply (Preserves_send instance Class)
               | apply (Preserves_send instance Attribute)
               | apply (Preserves_send instance PseudoClass)
               | apply (Preserves_send instance PseudoElement) ]|]);
      intros _; try apply Preserves_ret;
      (apply Preserves_bind; [|intros ?; apply Preserves_ret]);
      apply Preserves_flag; intros this Hthis; apply (P_flags this Hthis).
  - unfold cssSelectorBuilder.combine.
    apply Preserves_bind; [apply Preserves_new|]. intros instance.
    apply Preserves_bind; [apply Preserves_combine | intros ?; apply Preserves_ret].
Qed.

Lemma invariant_perform h a : Forall P h -> Forall P (perform h a).
Proof.
  intros Hh. destruct a as [|this f|this|f]; cbn [perform].
  - now apply Preserves_new.
  - now apply Preserves_run_method.
  - apply Preserves_on; [apply preserves_stringify | exact Hh].
  - now apply Preserves_run_facade.
Qed.

Lemma invariant_perform_all actions : forall h : heap,
  Forall P h -> Forall P (perform_all actions h).
Proof.
  unfold perform_all.
  induction actions as [|a actions IH]; intros h Hh; cbn [foldl]; [exact Hh|].
  apply IH. now apply invariant_perform.
Qed.

End Invariant.

Lemma rank_range k : 1 <= rank k <= 6.
Proof. destruct k; cbn; lia. Qed.

Lemma rank_inj k k' : rank k = rank k' -> k = k'.
Proof. destruct k, k'; cbn; intros [=]; reflexivity. Qed.

Lemma seen_mark k' k this :
  seen k' (mark k this) = seen k' this || (once_only k' && bool_decide (k' = k)).
Proof. destruct k', k, this; cbn; rewrite ?orb_false_r, ?orb_true_r; reflexivity. Qed.

Lemma preserves_ranks_known k value : preserves ranks_known (append k value).
Proof.
  intros this Hthis. unfold ranks_known, state_after in *. rewrite append_run.
  destruct (seen k this); cbn [fst]; [exact Hthis|]. cbv zeta.
  destruct (JS.gt _ _); cbn [fst order with_order with_arr].
  - now destruct k, this.
  - apply Forall_app. split; [exact Hthis|].
    repeat constructor; apply rank_range.
Qed.

Lemma preserves_singletons_once k value : preserves singletons_once (append k value).
Proof.
  intros this Hthis k' Honce. unfold state_after. rewrite append_run.
  destruct (Hthis k' Honce) as [Hcount Hin].
  destruct (seen k this) eqn:Hseen; cbn [fst]; [now split|]. cbv zeta.
  assert (Horder : order (mark k this) = order this) by now destruct k, this.
  assert (Hseen' : forall a l, seen k' (with_order l (with_arr a (mark k this)))
                               = seen k' (mark k this)) by now destruct k', k, this.
  assert (Hseen'' : forall a, seen k' (with_arr a (mark k this))
                              = seen k' (mark k this)) by now destruct k', k, this.
  destruct (JS.gt _ _); cbn [fst order with_order with_arr].
  - rewrite Horder, Hseen'', seen_mark. split; [exact Hcount|].
    intros H. now rewrite (Hin H).
  - rewrite Hseen', seen_mark, count_occ_app. cbn [count_occ].
    destruct (decide (k' = k)) as [->|Hne].
    + rewrite Honce, bool_decide_eq_true_2 by reflexivity.
      split; [|now rewrite orb_true_r].
      destruct (Z.eq_dec (rank k) (rank k)) as [_|Hfalse]; [|now destruct Hfalse].
      assert (Hnotin : ~ In (rank k) (order this)).
      { intros H. rewrite (Hin H) in Hseen. discriminate. }
      apply (count_occ_not_In Z.eq_dec) in Hnotin. lia.
    + destruct (Z.eq_dec (rank k) (rank k')) as [Heq|_].
      { apply rank_inj in Heq. now destruct Hne. }
      split; [lia|]. intros H. apply in_app_or in H as [H|[H|[]]].
      * now rewrite (Hin H).
      * apply rank_inj in H. now destruct Hne.
Qed.

(** X12. Whatever a client does, every rank recorded on any builder is one of
    the six ranks of the append methods. *)
Theorem recorded_ranks_are_known (actions : list action) :
  Forall (fun this => Forall (fun r => 1 <= r <= 6) (order this))
    (perform_all actions []).
Proof.
  apply (invariant_perform_all ranks_known).
  - constructor.
  - apply preserves_ranks_known.
  - now intros a this.
  - now intros this.
  - constructor.
Qed.

(** X13. Whatever a client does, on every builder the ranks of [element], [id]
    and [pseudoElement] are each recorded at most once, and only on a builder
    whose flag of that kind is set. *)
Theorem singleton_ranks_recorded_once (actions : list action) :
  Forall (fun this =>
            forall k, once_only k = true ->
              (count_occ Z.eq_dec (order this) (rank k) <= 1)%nat
              /\ (In (rank k) (order this) -> seen k this = true))
    (perform_all actions []).
Proof.
  apply (invariant_perform_all singletons_once).
  - intros k _. cbn. split; [lia | intros []].
  - apply preserves_singletons_once.
  - intros a this Hthis k Honce. destruct (Hthis k Honce) as [Hc Hi].
    split; [exact Hc|]. intros H. specialize (Hi H). now destruct k.
  - intros this Hthis.
    split; [|split]; intros k Honce;
      destruct (Hthis k Honce) as [Hc Hi];
      (split; [exact Hc|]); intros H; specialize (Hi H);
      destruct k, this; cbn in *; congruence.
  - constructor.
Qed.
